(** * The request-gating middleware of the admin panel (src/middleware.js)

    A shallow embedding of [src/middleware.js]: the in-memory rate limiter
    [checkRateLimit] and the [middleware] function that classifies a request,
    resolves the session, checks the role, rate-limits, checks the content
    type and decorates the forwarded response.

    Modelling choices.
    - JavaScript strings are [string]; [String.prototype.includes] and
      [String.prototype.startsWith] are the functions [includes] and
      [startsWith] below.
    - [Date.now()] is a [Z] (milliseconds); the value the clock returns is an
      input of the call.
    - The module-level [Map] [requestCounts] is a [gmap string (list Z)] that
      is threaded through the calls; [Map.size] is [size].
    - The body of [middleware] is written in a small monad [JS] that carries
      the module state and the three ways a JavaScript statement completes
      (normally, by [return], by [throw]).
    - The session lookup ([getAuth], [headers], [auth.api.getSession]) belongs
      to the external auth library: what it answers (a session, [null], or an
      exception) is an input, and every call to it is recorded.
    - [console.log], [console.warn] and [console.error] produce no value and
      touch neither the response nor [requestCounts]; they are left out,
      except for the read of [error.message] in the argument of the
      [console.error] of the [catch] block, which throws when the caught
      value is [null] or [undefined]. *)

From Stdlib Require Import ZArith String List.
From stdpp Require Import gmap strings list fin_maps pretty sorting.

Open Scope Z_scope.

#[local] Set Warnings "-clear-no-such-hyp".

(** ** Strings *)

(** [s.startsWith(searchString)] *)
Definition startsWith (s searchString : string) : bool :=
  String.prefix searchString s.

(** [s.includes(searchString)]: [searchString] occurs at some offset of [s]. *)
Fixpoint includes (s searchString : string) : bool :=
  String.prefix searchString s ||
  match s with
  | EmptyString => false
  | String _ s' => includes s' searchString
  end.

(** ** The rate limiter (src/middleware.js, lines 9-37) *)

Definition RATE_LIMIT_WINDOW : Z := 60000.
Definition MAX_REQUESTS : Z := 100.

(** [checkRateLimit(identifier)], with the clock value [now] and the map as
    explicit input and output. The early [return false] leaves the map as it
    was; [filter] builds a new array, so the stored array is not modified
    before [set]. *)
Definition checkRateLimit (identifier : string) (now : Z)
    (requestCounts : gmap string (list Z)) : bool * gmap string (list Z) :=
  let userRequests := default [] (requestCounts !! identifier) in
  let recentRequests :=
    filter (λ time, now - time < RATE_LIMIT_WINDOW) userRequests in
  if Z.of_nat (length recentRequests) >=? MAX_REQUESTS then
    (false, requestCounts)
  else
    let recentRequests := recentRequests ++ [now] in
    let requestCounts := <[identifier := recentRequests]> requestCounts in
    if Z.of_nat (size requestCounts) >? 1000 then (true, ∅)
    else (true, requestCounts).

(** The requests of [identifier] that are still in the window at [now]: the
    array [recentRequests] of [checkRateLimit] before the [push]. *)
Definition recent (identifier : string) (now : Z)
    (m : gmap string (list Z)) : list Z :=
  filter (λ time, now - time < RATE_LIMIT_WINDOW) (default [] (m !! identifier)).

(** A sequence of calls [(identifier, now)], made one after the other on the
    same map: the answers in order, and the map at the end. *)
Fixpoint checkRateLimit_seq (calls : list (string * Z))
    (requestCounts : gmap string (list Z))
    : list bool * gmap string (list Z) :=
  match calls with
  | [] => ([], requestCounts)
  | (identifier, now) :: calls =>
      let '(ok, requestCounts) := checkRateLimit identifier now requestCounts in
      let '(oks, requestCounts) := checkRateLimit_seq calls requestCounts in
      (ok :: oks, requestCounts)
  end.

(** ** JavaScript values read by the middleware *)

(** The values a header lookup, [req.ip] or a field of [session.user] can
    hold: a string, [null] or [undefined]. *)
Inductive JsValue : Type :=
  | JsUndefined
  | JsNull
  | JsString (s : string).

Global Instance JsValue_eq_dec : EqDecision JsValue.
Proof. solve_decision. Defined.

(** Truthiness: [undefined], [null] and the empty string are falsy. *)
Definition truthy (v : JsValue) : bool :=
  match v with
  | JsString (String _ _) => true
  | _ => false
  end.

(** [v || d] with a string [d] as the fallback. *)
Definition or_else (v : JsValue) (d : string) : string :=
  match v with
  | JsString (String a s) => String a s
  | _ => d
  end.

(** [String(v)], the conversion [Headers.set] applies to its value. *)
Definition js_toString (v : JsValue) : string :=
  match v with
  | JsUndefined => "undefined"
  | JsNull => "null"
  | JsString s => s
  end.

(** [c.includes(sub)] on a value already known to be truthy. *)
Definition value_includes (v : JsValue) (sub : string) : bool :=
  match v with
  | JsString s => includes s sub
  | _ => false
  end.

Record User : Type := mkUser {
  role : JsValue;
  email : JsValue;
  id : JsValue
}.

(** A session object; [user] is [None] when the property is missing or
    falsy. *)
Record Session : Type := mkSession {
  user : option User
}.

(** A thrown value: an object with a [message] (an [Error], a [TypeError],
    ...), or a value that is not an object ([throw null], a promise rejected
    with [undefined], a thrown string). *)
Inductive JsError : Type :=
  | Error (message : string)
  | Thrown (v : JsValue).

(** [error.message] for a caught value: reading a property of [null] or
    [undefined] throws a [TypeError]; a string has no such property. *)
Definition get_message (error : JsError) : JsError + JsValue :=
  match error with
  | Error message => inr (JsString message)
  | Thrown JsNull =>
      inl (Error "Cannot read properties of null (reading 'message')")
  | Thrown JsUndefined =>
      inl (Error "Cannot read properties of undefined (reading 'message')")
  | Thrown (JsString _) => inr JsUndefined
  end.

(** The request, as far as the middleware reads it. Header names are stored
    in lower case, as [Headers.get] looks them up. *)
Record Request : Type := mkRequest {
  pathname : string;                 (* req.nextUrl.pathname *)
  origin : string;                   (* req.nextUrl.origin, the base of req.url *)
  method : string;                   (* req.method *)
  req_headers : gmap string string;  (* req.headers *)
  req_ip : JsValue                   (* req.ip *)
}.

(** [req.headers.get(name)]: the value, or [null]. *)
Definition headers_get (req : Request) (name : string) : JsValue :=
  match req_headers req !! name with
  | Some v => JsString v
  | None => JsNull
  end.

(** ** Responses *)

(** [new URL("/", req.url)] followed by [searchParams.set] calls. *)
Record Url : Type := mkUrl {
  url_origin : string;
  url_pathname : string;
  searchParams : list (string * string)
}.

Definition new_URL (path base : string) : Url :=
  {| url_origin := base; url_pathname := path; searchParams := [] |}.

(** [params.set(name, value)]: replaces the value of the first pair named
    [name] and removes the others, or appends a new pair. *)
Fixpoint params_set (name value : string) (params : list (string * string))
    : list (string * string) :=
  match params with
  | [] => [(name, value)]
  | (n, v) :: rest =>
      if bool_decide (n = name)
      then (name, value) :: filter (λ p, p.1 ≠ name) rest
      else (n, v) :: params_set name value rest
  end.

Definition searchParams_set (name value : string) (u : Url) : Url :=
  {| url_origin := url_origin u;
     url_pathname := url_pathname u;
     searchParams := params_set name value (searchParams u) |}.

(** [params.get(name)] *)
Fixpoint searchParams_get (name : string) (params : list (string * string))
    : option string :=
  match params with
  | [] => None
  | (n, v) :: rest =>
      if bool_decide (n = name) then Some v else searchParams_get name rest
  end.

(** The argument of [JSON.stringify] in the two JSON bodies. *)
Inductive Json : Type :=
  | JBool (b : bool)
  | JStr (s : string).

Inductive Body : Type :=
  | BodyNull
  | BodyJson (fields : list (string * Json)).

(** The three ways the middleware builds a response, each with the headers
    the middleware itself puts on it. *)
Inductive Response : Type :=
  | NextResponse_next (headers : gmap string string)
  | NextResponse_redirect (url : Url) (headers : gmap string string)
  | new_NextResponse (body : Body) (status : Z) (headers : gmap string string).

Definition headers (r : Response) : gmap string string :=
  match r with
  | NextResponse_next h => h
  | NextResponse_redirect _ h => h
  | new_NextResponse _ _ h => h
  end.

(** [response.headers.set(name, value)] *)
Definition headers_set (name value : string) (r : Response) : Response :=
  match r with
  | NextResponse_next h => NextResponse_next (<[name := value]> h)
  | NextResponse_redirect u h => NextResponse_redirect u (<[name := value]> h)
  | new_NextResponse b s h => new_NextResponse b s (<[name := value]> h)
  end.

(** ** State, external calls and the statement monad *)

(** Calls that leave the body of [middleware]. *)
Inductive Call : Type :=
  | CallGetSession
  | CallCheckRateLimit (identifier : string).

Record World : Type := mkWorld {
  requestCounts : gmap string (list Z);
  calls : list Call
}.

(** What the outside answers during one run of the middleware. *)
Record External : Type := mkExternal {
  getSession : JsError + option Session;  (* throws, or null, or a session *)
  Date_now : Z
}.

Inductive Completion (A : Type) : Type :=
  | Normal (a : A)
  | Return (r : Response)
  | Throw (e : JsError).
Arguments Normal {A} a.
Arguments Return {A} r.
Arguments Throw {A} e.

Definition JS (A : Type) : Type := World → Completion A * World.

Global Instance JS_ret : MRet JS := λ A a w, (Normal a, w).

Global Instance JS_bind : MBind JS := λ A B f m w,
  match m w with
  | (Normal a, w') => f a w'
  | (Return r, w') => (Return r, w')
  | (Throw e, w') => (Throw e, w')
  end.

(** [return r;] *)
Definition return_ {A} (r : Response) : JS A := λ w, (Return r, w).

(** [throw e;] *)
Definition throw {A} (e : JsError) : JS A := λ w, (Throw e, w).

(** An expression that yields a value or throws. *)
Definition eval {A} (r : JsError + A) : JS A :=
  match r with
  | inl e => throw e
  | inr a => mret a
  end.

(** [if (c) { body }] *)
Definition when (c : bool) (body : JS unit) : JS unit :=
  if c then body else mret tt.

(** [try { body } catch (error) { handler }] *)
Definition try_catch {A} (body : JS A) (handler : JsError → JS A) : JS A :=
  λ w,
    match body w with
    | (Throw e, w') => handler e w'
    | other => other
    end.

Definition record_call (c : Call) : JS unit :=
  λ w, (Normal tt,
        {| requestCounts := requestCounts w; calls := calls w ++ [c] |}).

(** [await auth.api.getSession({ headers: await headers() })], together with
    the [await getAuth()] before it. *)
Definition auth_api_getSession (ext : External) : JS (option Session) :=
  record_call CallGetSession ;;
  match getSession ext with
  | inl e => throw e
  | inr session => mret session
  end.

(** The call [checkRateLimit(identifier)] on the module-level map, at the
    clock value of this run. *)
Definition call_checkRateLimit (ext : External) (identifier : string)
    : JS bool :=
  λ w,
    let '(ok, m) := checkRateLimit identifier (Date_now ext) (requestCounts w) in
    (Normal ok,
     {| requestCounts := m;
        calls := calls w ++ [CallCheckRateLimit identifier] |}).

(** ** The middleware (src/middleware.js, lines 39-271) *)

Definition PUBLIC_PATHS : list string :=
  [ "/"; "/_next/"; "/favicon.ico"; "/robots.txt"; "/sitemap.xml";
    "/images/"; "/api/auth/" ]%string.

Definition SUSPICIOUS_PATHS : list string :=
  [ "/.env"; "/wp-admin"; "/phpMyAdmin"; "/.git"; "/config"; "/backup";
    "/.aws"; "/admin.php"; "/login.php"; "/shell.php" ]%string.

(** [SUSPICIOUS_PATHS.some((path) => pathname.includes(path))] *)
Definition isSuspicious (pathname : string) : bool :=
  existsb (λ path, includes pathname path) SUSPICIOUS_PATHS.

(** [PUBLIC_PATHS.some((publicPath) => pathname.startsWith(publicPath))] *)
Definition isPublic (pathname : string) : bool :=
  existsb (λ publicPath, startsWith pathname publicPath) PUBLIC_PATHS.

(** Several [response.headers.set] calls, in the order written. *)
Definition headers_set_all (hs : list (string * string)) (r : Response)
    : Response :=
  fold_left (λ r h, headers_set h.1 h.2 r) hs r.

Definition middleware (ext : External) (req : Request) : JS Response :=
  let pathname := pathname req in
  let origin := origin req in
  let ip :=
    or_else (headers_get req "x-forwarded-for")
      (or_else (req_ip req) "unknown") in
  (* 1. suspicious paths *)
  when (isSuspicious pathname)
    (return_ (new_NextResponse BodyNull 404 ∅)) ;;
  (* 2. public paths *)
  when (isPublic pathname)
    (return_ (NextResponse_next ∅)) ;;
  (* 3. authentication *)
  u ← try_catch
        (session ← auth_api_getSession ext;
         match session with
         | Some {| user := Some u |} => mret u
         | _ =>
             let loginUrl := new_URL "/" origin in
             let loginUrl :=
               searchParams_set "error" "authentication_required" loginUrl in
             let loginUrl := searchParams_set "callbackUrl" pathname loginUrl in
             let response := NextResponse_redirect loginUrl ∅ in
             return_ (headers_set "X-Redirect-Reason" "no-session" response)
         end)
        (λ error,
           (* console.error(..., { path, error: error.message, ... }) *)
           _ ← eval (get_message error);
           let loginUrl := new_URL "/" origin in
           let loginUrl := searchParams_set "error" "auth_error" loginUrl in
           let response := NextResponse_redirect loginUrl ∅ in
           return_ (headers_set "X-Redirect-Reason" "auth-error" response));
  let userRole := role u in
  let userEmail := email u in
  let userId := id u in
  (* 4. admin role *)
  when (negb (bool_decide (userRole = JsString "admin")))
    (let loginUrl := new_URL "/" origin in
     let loginUrl := searchParams_set "error" "unauthorized" loginUrl in
     let loginUrl :=
       searchParams_set "message" "Accès réservé aux administrateurs"
         loginUrl in
     let response := NextResponse_redirect loginUrl ∅ in
     return_ (headers_set "X-Redirect-Reason" "not-admin" response)) ;;
  (* 5. rate limiting *)
  when (startsWith pathname "/api/")
    (let identifier := or_else userEmail (or_else userId ip) in
     ok ← call_checkRateLimit ext identifier;
     when (negb ok)
       (return_
          (new_NextResponse
             (BodyJson
                [ ("success", JBool false);
                  ("message", JStr "Too many requests. Please try again later.")
                ]%string)
             429
             (list_to_map
                [ ("Content-Type", "application/json");
                  ("X-RateLimit-Limit", pretty MAX_REQUESTS);
                  ("X-RateLimit-Window", pretty (RATE_LIMIT_WINDOW / 1000));
                  ("Retry-After", "60") ]%string)))) ;;
  (* 6. content type of mutations *)
  when (bool_decide (method req ∈ ["POST"; "PUT"; "PATCH"]%string))
    (let contentType := headers_get req "content-type" in
     when (negb (truthy contentType) ||
           (negb (value_includes contentType "application/json") &&
            negb (value_includes contentType "multipart/form-data")))
       (when (negb (includes pathname "/api/auth/"))
          (return_
             (new_NextResponse
                (BodyJson
                   [ ("success", JBool false);
                     ("message", JStr "Invalid content type") ]%string)
                400
                {[ "Content-Type"%string := "application/json"%string ]})))) ;;
  (* 7. the forwarded response and its headers *)
  let response := NextResponse_next ∅ in
  let response :=
    if startsWith pathname "/api/" then
      headers_set_all
        [ ("Access-Control-Allow-Origin", origin);
          ("Access-Control-Allow-Credentials", "true");
          ("Access-Control-Allow-Methods",
           "GET, POST, PUT, DELETE, PATCH, OPTIONS");
          ("Access-Control-Allow-Headers", "Content-Type, Authorization");
          ("X-Content-Type-Options", "nosniff");
          ("X-Frame-Options", "DENY");
          ("X-XSS-Protection", "0");
          ("Referrer-Policy", "strict-origin-when-cross-origin") ]%string
        response
    else response in
  let response :=
    if startsWith pathname "/admin" || startsWith pathname "/api/" then
      headers_set_all
        [ ("X-Admin-User", or_else userEmail "unknown");
          ("X-User-Id", or_else userId "unknown");
          ("X-User-Role", js_toString userRole);
          ("Cache-Control", "no-store, no-cache, must-revalidate, private")
        ]%string
        response
    else response in
  let response := headers_set "X-User-Authenticated" "true" response in
  return_ response.

(** How a call of the async function [middleware] ends: the promise resolves
    with a response, or rejects with the exception that escaped the body. *)
Inductive Outcome : Type :=
  | Responds (r : Response)
  | Rejects (e : JsError).

Definition run_middleware (ext : External) (req : Request) (w : World)
    : Outcome * World :=
  match middleware ext req w with
  | (Normal r, w') => (Responds r, w')
  | (Return r, w') => (Responds r, w')
  | (Throw e, w') => (Rejects e, w')
  end.

(** The world after the session lookup alone: one more recorded call, the
    rate-limit map untouched. *)
Definition after_getSession (w : World) : World :=
  {| requestCounts := requestCounts w;
     calls := calls w ++ [CallGetSession] |}.

(** ** Concrete runs used as examples *)

(** A map in which one identifier has 100 requests stamped 0. *)
Definition full_window_map : gmap string (list Z) :=
  {[ "admin@example.com"%string := replicate 100 0 ]}.

(** A map that tracks 999 identifiers: one with 100 requests stamped 0, and
    998 others with one request each. *)
Definition crowded_map : gmap string (list Z) :=
  <[ "admin@example.com"%string := replicate 100 0 ]>
    (list_to_map (map (λ n : nat, (pretty n, [0])) (seq 0 998))).

(** The module state when the server starts. *)
Definition initial_world : World := {| requestCounts := ∅; calls := [] |}.

Definition admin_user : User :=
  {| role := JsString "admin";
     email := JsString "admin@example.com";
     id := JsString "u1" |}.

Definition customer_user : User :=
  {| role := JsString "user";
     email := JsString "customer@example.com";
     id := JsString "u2" |}.

(** The auth library answers with a session of [u]. *)
Definition session_of (u : User) : External :=
  {| getSession := inr (Some {| user := Some u |}); Date_now := 1000 |}.

(** The auth library answers [null]. *)
Definition no_session : External :=
  {| getSession := inr None; Date_now := 1000 |}.

Definition get_request (path : string) : Request :=
  {| pathname := path;
     origin := "https://admin.example.com";
     method := "GET";
     req_headers := ∅;
     req_ip := JsUndefined |}.

Definition post_request (path contentType : string) : Request :=
  {| pathname := path;
     origin := "https://admin.example.com";
     method := "POST";
     req_headers := {[ "content-type"%string := contentType ]};
     req_ip := JsUndefined |}.

(** ** Runs of the rate limiter, seen from one identifier *)

(** The clock values of the calls by [identifier] that were accepted in a
    run of calls. *)
Fixpoint accepted_times (identifier : string) (calls : list (string * Z))
    (requestCounts : gmap string (list Z)) : list Z :=
  match calls with
  | [] => []
  | (i, now) :: calls =>
      let '(ok, requestCounts) := checkRateLimit i now requestCounts in
      (if ok && bool_decide (i = identifier) then [now] else []) ++
      accepted_times identifier calls requestCounts
  end.

(** ** The login form (components/auth/Login, [submitHandler]) *)

(** What the handler does to the page and to the outside, in order.
    [console.log] and [console.error] are left out, as in the middleware. *)
Inductive UiEffect : Type :=
  | PreventDefault                                    (* e.preventDefault() *)
  | SetIsLoading (b : bool)                           (* setIsLoading(b) *)
  | SignInEmail (email password callbackUrl : string) (* signIn.email({...}) *)
  | ToastError (message : string)                     (* toast.error(message) *)
  | ToastSuccess (message : string)                   (* toast.success(message) *)
  | RouterPush (path : string).                       (* router.push(path) *)

Global Instance UiEffect_eq_dec : EqDecision UiEffect.
Proof. solve_decision. Defined.

(** What [await signIn.email(...)] gives: an exception, or an object whose
    [data] is truthy or not and whose [error] is falsy ([None]) or an object
    with a [message]. *)
Inductive SignInResult : Type :=
  | SignInThrows (e : JsError)
  | SignInResolves (data : bool) (error : option JsValue).

(** How a block of statements ends. *)
Inductive UiCompletion : Type :=
  | UiNormal
  | UiReturn
  | UiThrow (e : JsError).

(** A block that has run: its effects, and how it ended. *)
Definition Ui : Type := list UiEffect * UiCompletion.

Definition emit (e : UiEffect) : Ui := ([e], UiNormal).
Definition ui_skip : Ui := ([], UiNormal).
Definition ui_return : Ui := ([], UiReturn).
Definition ui_throw (e : JsError) : Ui := ([], UiThrow e).

(** [a; b]: [b] runs only when [a] ends normally. *)
Definition ui_seq (a b : Ui) : Ui :=
  match a with
  | (ea, UiNormal) => (ea ++ b.1, b.2)
  | _ => a
  end.

(** [{ s1; s2; ... }] *)
Definition ui_block (statements : list Ui) : Ui :=
  foldr ui_seq ui_skip statements.

(** [try { body } catch (error) { handler } finally { finalizer }]: the
    handler runs when the body throws, the finalizer always runs, and the
    statement ends as the body or the handler did unless the finalizer
    itself returns or throws. *)
Definition try_catch_finally (body : Ui) (handler : JsError → Ui)
    (finalizer : Ui) : Ui :=
  let caught :=
    match body with
    | (eb, UiThrow e) => (eb ++ (handler e).1, (handler e).2)
    | _ => body
    end in
  (caught.1 ++ finalizer.1,
   match finalizer.2 with
   | UiNormal => caught.2
   | c => c
   end).

(** [submitHandler(e)]. [parseCallbackUrl] is imported from
    [@/helpers/helpers] and may throw; [callBackUrl] is
    [params.get("callbackUrl")]; [email] and [password] are the state of the
    form; [signIn_email] is what the auth client answers. *)
Definition submitHandler
    (parseCallbackUrl : string → JsError + string)
    (callBackUrl : JsValue) (email password : string)
    (signIn_email : SignInResult) : Ui :=
  ui_block
    [ emit PreventDefault;
      emit (SetIsLoading true);
      try_catch_finally
        (match (if truthy callBackUrl
                then parseCallbackUrl (js_toString callBackUrl)
                else inr "/admin"%string) with
         | inl e => ui_throw e
         | inr callbackUrl =>
             ui_block
               [ emit (SignInEmail email password callbackUrl);
                 match signIn_email with
                 | SignInThrows e => ui_throw e
                 | SignInResolves data error =>
                     ui_block
                       [ match error with
                         | Some message =>
                             ui_block
                               [ emit (ToastError
                                         (or_else message "Échec de connexion"));
                                 emit (SetIsLoading false);
                                 ui_return ]
                         | None => ui_skip
                         end;
                         if data
                         then ui_block
                                [ emit (ToastSuccess "Connexion réussie!");
                                  emit (RouterPush "/admin") ]
                         else ui_skip ]
                 end ]
         end)
        (λ error,
           emit (ToastError "Un problème est survenu. Veuillez réessayer."))
        (emit (SetIsLoading false)) ].

(** The toasts among the effects. *)
Definition is_toast (e : UiEffect) : bool :=
  match e with
  | ToastError _ | ToastSuccess _ => true
  | _ => false
  end.

(** * Properties *)

(** ** Strings *)

Section Strings.

Lemma append_cons (a : Ascii.ascii) (p rest : string) :
  String a p +:+ rest = String a (p +:+ rest).
Proof. reflexivity. Qed.

Lemma append_nil (rest : string) : EmptyString +:+ rest = rest.
Proof. reflexivity. Qed.

Lemma prefix_append (p s : string) :
  String.prefix p s = true ↔ ∃ rest, s = p +:+ rest.
Proof.
  revert s. induction p as [|a p IH]; intros s; simpl.
  - destruct s; split; eauto.
  - destruct s as [|b s]; simpl.
    + split; [discriminate | intros [rest H]; discriminate].
    + destruct (Ascii.ascii_dec a b) as [->|Hne].
      * rewrite IH. split; intros [rest H]; exists rest;
          rewrite append_cons in *; congruence.
      * split; [discriminate|].
        intros [rest H]. rewrite append_cons in H. congruence.
Qed.

Lemma startsWith_spec (s p : string) :
  startsWith s p = true ↔ ∃ rest, s = p +:+ rest.
Proof. apply prefix_append. Qed.

Lemma includes_unfold (s sub : string) :
  includes s sub =
  String.prefix sub s ||
  match s with
  | EmptyString => false
  | String _ s' => includes s' sub
  end.
Proof. by destruct s. Qed.

(** [includes] is containment at any offset. *)
Lemma includes_spec (s sub : string) :
  includes s sub = true ↔ ∃ pre post, s = pre +:+ sub +:+ post.
Proof.
  split.
  - induction s as [|a s IH]; rewrite includes_unfold; intros H;
      apply orb_true_iff in H as [H|H]; try discriminate.
    + apply prefix_append in H as [post ->]. by exists EmptyString, post.
    + apply prefix_append in H as [post ->]. by exists EmptyString, post.
    + destruct (IH H) as (pre & post & ->). by exists (String a pre), post.
  - intros (pre & post & ->). induction pre as [|a pre IH].
    + rewrite includes_unfold. apply orb_true_iff. left.
      apply prefix_append. by exists post.
    + rewrite includes_unfold. apply orb_true_iff. by right.
Qed.

Lemma isSuspicious_spec (pathname : string) :
  isSuspicious pathname = true ↔
  ∃ path pre post, path ∈ SUSPICIOUS_PATHS ∧ pathname = pre +:+ path +:+ post.
Proof.
  unfold isSuspicious. rewrite existsb_exists. split.
  - intros (path & Hin & Hinc). apply includes_spec in Hinc as (pre & post & ->).
    exists path, pre, post. by rewrite list_elem_of_In.
  - intros (path & pre & post & Hin & ->). exists path. split.
    + by apply list_elem_of_In.
    + apply includes_spec. eauto.
Qed.

Lemma isPublic_slash (pathname : string) :
  startsWith pathname "/" = true → isPublic pathname = true.
Proof. intros H. unfold isPublic, PUBLIC_PATHS. simpl. by rewrite H. Qed.

End Strings.

(** ** The rate limiter *)

Section RateLimiter.

Implicit Types (m : gmap string (list Z)) (identifier : string).

Lemma checkRateLimit_denied identifier now m :
  MAX_REQUESTS ≤ Z.of_nat (length (recent identifier now m)) →
  checkRateLimit identifier now m = (false, m).
Proof.
  intros H. unfold checkRateLimit. fold (recent identifier now m).
  by rewrite (proj2 (Z.geb_le _ _) H).
Qed.

Lemma checkRateLimit_accepted identifier now m :
  Z.of_nat (length (recent identifier now m)) < MAX_REQUESTS →
  checkRateLimit identifier now m =
    (true,
     let m' := <[identifier := recent identifier now m ++ [now]]> m in
     if Z.of_nat (size m') >? 1000 then ∅ else m').
Proof.
  intros H. unfold checkRateLimit. fold (recent identifier now m).
  destruct (Z.geb_spec (Z.of_nat (length (recent identifier now m)))
              MAX_REQUESTS) as [Hge|_]; [lia|].
  simpl. by destruct (_ >? _).
Qed.

Lemma checkRateLimit_cases identifier now m :
  (MAX_REQUESTS ≤ Z.of_nat (length (recent identifier now m)) ∧
   checkRateLimit identifier now m = (false, m)) ∨
  (Z.of_nat (length (recent identifier now m)) < MAX_REQUESTS ∧
   fst (checkRateLimit identifier now m) = true).
Proof.
  destruct (Z_le_gt_dec MAX_REQUESTS
              (Z.of_nat (length (recent identifier now m)))) as [H|H].
  - left. split; [done|]. by apply checkRateLimit_denied.
  - right. split; [lia|]. rewrite checkRateLimit_accepted; [done|lia].
Qed.

Lemma size_insert_dom {A} (m' : gmap string A) (i : string) (x : A) :
  size (<[i := x]> m') = size (dom m' ∪ {[i]}).
Proof.
  rewrite <- size_dom, dom_insert_L. f_equal. apply (comm_L (∪)).
Qed.

Lemma checkRateLimit_seq_app cs1 cs2 m :
  checkRateLimit_seq (cs1 ++ cs2) m =
    let '(oks1, m1) := checkRateLimit_seq cs1 m in
    let '(oks2, m2) := checkRateLimit_seq cs2 m1 in
    (oks1 ++ oks2, m2).
Proof.
  revert m. induction cs1 as [|[i t] cs1 IH]; intros m; simpl.
  - by destruct (checkRateLimit_seq cs2 m).
  - destruct (checkRateLimit i t m) as [ok m1]. rewrite IH.
    destruct (checkRateLimit_seq cs1 m1) as [oks1 m2].
    by destruct (checkRateLimit_seq cs2 m2).
Qed.

Lemma filter_all {A} (P : A → Prop) `{∀ x, Decision (P x)} (l : list A) :
  Forall P l → filter P l = l.
Proof.
  induction 1 as [|x l Hx _ IH]; [done|].
  rewrite filter_cons_True by done. by rewrite IH.
Qed.

(** Requests made inside one window [lo, lo + 60s) are all recent for
    each other. *)
Lemma recent_in_window identifier lo now stored m :
  m !! identifier = Some stored →
  Forall (λ t, lo ≤ t < lo + RATE_LIMIT_WINDOW) stored →
  lo ≤ now < lo + RATE_LIMIT_WINDOW →
  recent identifier now m = stored.
Proof.
  intros Hm Hall Hnow. unfold recent. rewrite Hm. simpl.
  apply filter_all. eapply Forall_impl; [exact Hall|].
  simpl. intros t Ht. lia.
Qed.

(** While fewer than [MAX_REQUESTS] requests are stored, calls within the
    window are accepted and appended. *)
Lemma checkRateLimit_seq_accepted identifier lo ts : ∀ stored m,
  m !! identifier = Some stored →
  Forall (λ t, lo ≤ t < lo + RATE_LIMIT_WINDOW) stored →
  Forall (λ t, lo ≤ t < lo + RATE_LIMIT_WINDOW) ts →
  Z.of_nat (length stored + length ts) ≤ MAX_REQUESTS →
  Z.of_nat (size m) ≤ 1000 →
  checkRateLimit_seq (map (λ t, (identifier, t)) ts) m =
    (replicate (length ts) true, <[identifier := stored ++ ts]> m).
Proof.
  induction ts as [|t ts IH]; intros stored m Hm Hst Hts Hlen Hsize.
  - simpl. rewrite app_nil_r. by rewrite insert_id.
  - inversion Hts as [|? ? Ht Hts']; subst. simpl in Hlen |- *.
    rewrite checkRateLimit_accepted;
      rewrite (recent_in_window identifier lo t stored m) by done;
      [|lia].
    cbv zeta.
    rewrite map_size_insert_Some by (by rewrite Hm).
    destruct (Z.gtb_spec (Z.of_nat (size m)) 1000) as [?|_]; [lia|].
    rewrite (IH (stored ++ [t])).
    + by rewrite insert_insert_eq, <- app_assoc.
    + by rewrite lookup_insert_eq.
    + apply Forall_app. split; [done|]. by constructor.
    + done.
    + rewrite length_app. simpl. lia.
    + rewrite map_size_insert_Some by (by rewrite Hm). done.
Qed.

Lemma checkRateLimit_seq_cons identifier now cs m :
  snd (checkRateLimit_seq ((identifier, now) :: cs) m) =
  snd (checkRateLimit_seq cs (snd (checkRateLimit identifier now m))).
Proof.
  simpl. destruct (checkRateLimit identifier now m) as [ok m1]. simpl.
  by destruct (checkRateLimit_seq cs m1).
Qed.

(** A denied identifier is tracked. *)
Lemma recent_nonempty_tracked identifier now m :
  recent identifier now m ≠ [] → identifier ∈ dom m.
Proof.
  unfold recent. intros H. apply elem_of_dom.
  destruct (m !! identifier); [done|]. by destruct H.
Qed.

(** Below the bound of 1000 identifiers nothing is ever forgotten: after a
    call the map tracks what it tracked before, and the caller. *)
Lemma checkRateLimit_dom identifier now m :
  (size (dom m ∪ {[identifier]}) ≤ 1000)%nat →
  dom (snd (checkRateLimit identifier now m)) = dom m ∪ {[identifier]}.
Proof.
  intros Hsize.
  destruct (Z_le_gt_dec MAX_REQUESTS
              (Z.of_nat (length (recent identifier now m)))) as [H|H].
  - rewrite checkRateLimit_denied by done. simpl.
    assert (identifier ∈ dom m).
    { apply (recent_nonempty_tracked identifier now).
      intros Hnil. rewrite Hnil in H. unfold MAX_REQUESTS in H. simpl in H. lia. }
    set_solver.
  - rewrite checkRateLimit_accepted by lia. cbv zeta. simpl.
    rewrite size_insert_dom.
    destruct (Z.gtb_spec (Z.of_nat (size (dom m ∪ {[identifier]}))) 1000)
      as [?|_]; [lia|].
    rewrite dom_insert_L. apply (comm_L (∪)).
Qed.

Lemma checkRateLimit_seq_dom cs : ∀ m,
  (size (dom m ∪ list_to_set cs.*1) ≤ 1000)%nat →
  dom (snd (checkRateLimit_seq cs m)) = dom m ∪ list_to_set cs.*1.
Proof.
  induction cs as [|[i t] cs IH]; intros m Hsize.
  - simpl. set_solver.
  - rewrite checkRateLimit_seq_cons.
    rewrite fmap_cons, list_to_set_cons in Hsize |- *. simpl in Hsize |- *.
    assert (Hi : dom (snd (checkRateLimit i t m)) = dom m ∪ {[i]}).
    { apply checkRateLimit_dom. etrans; [|exact Hsize].
      apply subseteq_size. set_solver. }
    rewrite IH; rewrite Hi.
    + set_solver.
    + etrans; [|exact Hsize]. apply subseteq_size. set_solver.
Qed.

(** An accepted call that makes the map track more than 1000 identifiers
    leaves it empty. *)
Lemma checkRateLimit_clears identifier now m :
  fst (checkRateLimit identifier now m) = true →
  (1000 < size (dom m ∪ {[identifier]}))%nat →
  snd (checkRateLimit identifier now m) = ∅.
Proof.
  intros Hacc Hsize.
  destruct (checkRateLimit_cases identifier now m) as [[_ Hd]|[Hlt _]].
  - rewrite Hd in Hacc. discriminate.
  - rewrite checkRateLimit_accepted by done. cbv zeta. simpl.
    rewrite size_insert_dom.
    by destruct (Z.gtb_spec (Z.of_nat (size (dom m ∪ {[identifier]}))) 1000)
      as [_|?]; [|lia].
Qed.

Lemma checkRateLimit_empty identifier now :
  checkRateLimit identifier now ∅ = (true, {[identifier := [now]]}).
Proof.
  rewrite checkRateLimit_accepted; unfold recent; rewrite lookup_empty;
    [|done].
  cbv zeta. simpl. by rewrite insert_empty, map_size_singleton.
Qed.

End RateLimiter.

(** ** Claims about the rate limiter *)

(** C10. A call of [checkRateLimit] that answers [false] leaves the map
    exactly as it was, for every identifier, clock value and map: neither the
    pruned array nor a clear is stored on the denial path. *)
Theorem checkRateLimit_denial_keeps_map
    (identifier : string) (now : Z) (m : gmap string (list Z)) :
  fst (checkRateLimit identifier now m) = false →
  snd (checkRateLimit identifier now m) = m.
Proof.
  intros Hdenied.
  destruct (checkRateLimit_cases identifier now m) as [[_ ->]|[_ Hacc]].
  - done.
  - congruence.
Qed.

(** C5. From a map in which [identifier] has no request in the window of the
    first call and which, with [identifier], tracks at most 1000
    identifiers: 101 calls whose clock values [t1 :: ts] all lie in the 60
    second window starting at [t1] are answered [true] a hundred times and
    then [false]; and a call 61 seconds after [t1] is answered [true]
    again. *)
Theorem checkRateLimit_101st_denied_then_slides
    (identifier : string) (m : gmap string (list Z)) (t1 : Z) (ts : list Z) :
  length ts = 100%nat →
  Forall (λ t, t1 ≤ t < t1 + RATE_LIMIT_WINDOW) ts →
  recent identifier t1 m = [] →
  (size (dom m ∪ {[identifier]}) ≤ 1000)%nat →
  fst (checkRateLimit_seq (map (λ t, (identifier, t)) (t1 :: ts)) m)
    = replicate 100 true ++ [false] ∧
  fst (checkRateLimit identifier (t1 + 61000)
         (snd (checkRateLimit_seq (map (λ t, (identifier, t)) (t1 :: ts)) m)))
    = true.
Proof.
  intros Hlen Hts Hfresh Hroom.
  (* the last of the 101 calls *)
  rewrite <- (take_drop 99 ts) in Hts |- *.
  assert (Hlen99 : length (take 99 ts) = 99%nat) by (rewrite length_take; lia).
  destruct (drop 99 ts) as [|tl [|? ?]] eqn:Hdrop;
    try (apply (f_equal length) in Hdrop; rewrite length_drop in Hdrop;
         simpl in Hdrop; lia).
  set (ts99 := take 99 ts) in *.
  apply Forall_app in Hts as [Hts99 Htl].
  apply Forall_inv in Htl. simpl in Htl.
  (* first call *)
  cbn [map checkRateLimit_seq].
  rewrite checkRateLimit_accepted by (rewrite Hfresh; done).
  rewrite Hfresh. cbn [app]. cbv zeta.
  rewrite size_insert_dom.
  destruct (Z.gtb_spec (Z.of_nat (size (dom m ∪ {[identifier]}))) 1000)
    as [?|_]; [lia|].
  set (m1 := <[identifier := [t1]]> m).
  assert (Hsize1 : Z.of_nat (size m1) ≤ 1000).
  { unfold m1. rewrite size_insert_dom. lia. }
  (* calls 2 to 100 *)
  rewrite map_app, checkRateLimit_seq_app.
  rewrite (checkRateLimit_seq_accepted identifier t1 ts99 [t1] m1);
    [ | by apply lookup_insert_eq | constructor; [unfold RATE_LIMIT_WINDOW; lia|done]
      | done | simpl; rewrite Hlen99; done | done ].
  set (m2 := <[identifier := [t1] ++ ts99]> m1).
  assert (Hm2 : m2 !! identifier = Some (t1 :: ts99))
    by apply lookup_insert_eq.
  (* call 101 *)
  cbn [map checkRateLimit_seq].
  rewrite (checkRateLimit_denied identifier tl m2).
  2:{ rewrite (recent_in_window identifier t1 tl (t1 :: ts99) m2); try done.
      - simpl. rewrite Hlen99. done.
      - constructor; [unfold RATE_LIMIT_WINDOW; lia|done]. }
  cbn [fst snd]. rewrite Hlen99. split; [done|].
  (* 61 seconds after t1 *)
  destruct (checkRateLimit_cases identifier (t1 + 61000) m2)
    as [[Hfull _]|[_ Hacc]]; [|done].
  exfalso. revert Hfull. unfold recent. rewrite Hm2. simpl.
  rewrite filter_cons_False by (unfold RATE_LIMIT_WINDOW; lia).
  pose proof (length_filter (λ time, t1 + 61000 - time < RATE_LIMIT_WINDOW) ts99).
  unfold MAX_REQUESTS. lia.
Qed.

(** C6. Once a call makes the map track more than 1000 identifiers the whole
    map is cleared. So when the map and a run of calls [cs] have brought the
    number of tracked identifiers to 1000, and [blocked] is denied at that
    point, a call by a 1001st identifier is accepted and leaves the map
    empty, and the next call of [blocked] is accepted, at any clock value. *)
Theorem checkRateLimit_clear_unblocks
    (m : gmap string (list Z)) (cs : list (string * Z))
    (identifier blocked : string) (now tb tn : Z) :
  size (dom m ∪ list_to_set cs.*1) = 1000%nat →
  identifier ∉ dom m ∪ list_to_set cs.*1 →
  fst (checkRateLimit blocked tb (snd (checkRateLimit_seq cs m))) = false →
  (∀ i t (m' : gmap string (list Z)),
     fst (checkRateLimit i t m') = true →
     (1000 < size (dom m' ∪ {[i]}))%nat →
     snd (checkRateLimit i t m') = ∅) ∧
  size (snd (checkRateLimit_seq cs m)) = 1000%nat ∧
  checkRateLimit identifier now (snd (checkRateLimit_seq cs m)) = (true, ∅) ∧
  fst (checkRateLimit blocked tn
         (snd (checkRateLimit identifier now (snd (checkRateLimit_seq cs m)))))
    = true.
Proof.
  intros Hsize Hnew Hblocked.
  pose proof (checkRateLimit_seq_dom cs m) as Hdom.
  rewrite Hsize in Hdom. specialize (Hdom (le_n _)).
  set (m1 := snd (checkRateLimit_seq cs m)) in *.
  assert (Hm1 : size m1 = 1000%nat) by (by rewrite <- size_dom, Hdom).
  assert (Hfresh : m1 !! identifier = None).
  { apply not_elem_of_dom. by rewrite Hdom. }
  assert (Hcall : checkRateLimit identifier now m1 = (true, ∅)).
  { rewrite checkRateLimit_accepted.
    - cbv zeta. rewrite map_size_insert_None, Hm1 by done. done.
    - unfold recent. rewrite Hfresh. done. }
  split; [|split; [|split]].
  - intros i t m'. apply checkRateLimit_clears.
  - done.
  - done.
  - rewrite Hcall. simpl. by rewrite checkRateLimit_empty.
Qed.

(** *** Instances *)

Lemma checkRateLimit_denial_keeps_map_witness :
  snd (checkRateLimit "admin@example.com" 1000 full_window_map)
  = full_window_map.
Proof.
  apply checkRateLimit_denial_keeps_map. vm_compute. reflexivity.
Defined.

Lemma checkRateLimit_101st_denied_then_slides_witness :
  fst (checkRateLimit_seq
         (map (λ t, ("admin@example.com"%string, t))
              (0 :: map Z.of_nat (seq 1 100))) ∅)
    = replicate 100 true ++ [false] ∧
  fst (checkRateLimit "admin@example.com" (0 + 61000)
         (snd (checkRateLimit_seq
                 (map (λ t, ("admin@example.com"%string, t))
                      (0 :: map Z.of_nat (seq 1 100))) ∅)))
    = true.
Proof.
  apply checkRateLimit_101st_denied_then_slides.
  - reflexivity.
  - apply (bool_decide_unpack _). vm_compute. exact I.
  - reflexivity.
  - vm_compute. lia.
Defined.

Lemma checkRateLimit_clear_unblocks_witness :
  fst (checkRateLimit "admin@example.com" 5
         (snd (checkRateLimit "1000" 5
                 (snd (checkRateLimit_seq
                         [("guest@example.com"%string, 5)] crowded_map)))))
    = true.
Proof.
  apply (checkRateLimit_clear_unblocks crowded_map
           [("guest@example.com"%string, 5)]
           "1000" "admin@example.com" 5 5 5).
  - vm_compute. reflexivity.
  - intros H. apply elem_of_union in H as [H|H].
    + apply elem_of_dom in H. revert H. vm_compute. intros [x H]. discriminate.
    + apply elem_of_list_to_set in H. revert H.
      change (("1000" : string) ∉ [("guest@example.com"%string, 5)].*1).
      apply (bool_decide_unpack _). vm_compute. exact I.
  - vm_compute. reflexivity.
Defined.

(** ** The middleware *)

(** Runs the statements of [middleware] up to the next test that depends on
    the input. *)
Ltac js_run :=
  cbv beta iota zeta delta
    [run_middleware middleware when return_ throw try_catch eval
     auth_api_getSession record_call call_checkRateLimit
     mbind mret JS_bind JS_ret negb].

Section Middleware.

Variables (ext : External) (req : Request) (w : World).

Lemma middleware_suspicious :
  isSuspicious (pathname req) = true →
  run_middleware ext req w = (Responds (new_NextResponse BodyNull 404 ∅), w).
Proof. intros H. js_run. rewrite H. by js_run. Qed.

Lemma middleware_public :
  isSuspicious (pathname req) = false →
  isPublic (pathname req) = true →
  run_middleware ext req w = (Responds (NextResponse_next ∅), w).
Proof. intros Hs Hp. js_run. rewrite Hs. js_run. rewrite Hp. by js_run. Qed.

Lemma middleware_auth_error (e : JsError) :
  isSuspicious (pathname req) = false →
  isPublic (pathname req) = false →
  getSession ext = inl e →
  run_middleware ext req w =
    (match get_message e with
     | inl type_error => Rejects type_error
     | inr _ =>
         Responds
           (NextResponse_redirect
              {| url_origin := origin req;
                 url_pathname := "/";
                 searchParams := [("error", "auth_error")]%string |}
              {[ "X-Redirect-Reason"%string := "auth-error"%string ]})
     end,
     after_getSession w).
Proof.
  intros Hs Hp He. js_run. rewrite Hs. js_run. rewrite Hp. js_run.
  rewrite He. js_run. by destruct (get_message e).
Qed.

Lemma middleware_no_session :
  isSuspicious (pathname req) = false →
  isPublic (pathname req) = false →
  getSession ext = inr None ∨
  getSession ext = inr (Some {| user := None |}) →
  run_middleware ext req w =
    (Responds
       (NextResponse_redirect
          {| url_origin := origin req;
             url_pathname := "/";
             searchParams :=
               [("error", "authentication_required");
                ("callbackUrl", pathname req)]%string |}
          {[ "X-Redirect-Reason"%string := "no-session"%string ]}),
     after_getSession w).
Proof.
  intros Hs Hp He. js_run. rewrite Hs. js_run. rewrite Hp. js_run.
  destruct He as [-> | ->]; by js_run.
Qed.

Lemma middleware_not_admin (u : User) :
  isSuspicious (pathname req) = false →
  isPublic (pathname req) = false →
  getSession ext = inr (Some {| user := Some u |}) →
  role u ≠ JsString "admin" →
  run_middleware ext req w =
    (Responds
       (NextResponse_redirect
          {| url_origin := origin req;
             url_pathname := "/";
             searchParams :=
               [("error", "unauthorized");
                ("message", "Accès réservé aux administrateurs")]%string |}
          {[ "X-Redirect-Reason"%string := "not-admin"%string ]}),
     after_getSession w).
Proof.
  intros Hs Hp He Hrole. js_run. rewrite Hs. js_run. rewrite Hp. js_run.
  rewrite He. js_run. rewrite (bool_decide_eq_false_2 _ Hrole). by js_run.
Qed.

(** Paths under [/api/] or [/admin] start with [/], which is in
    [PUBLIC_PATHS]. *)
Lemma api_or_admin_isPublic (p : string) :
  startsWith p "/api/" = true ∨ startsWith p "/admin" = true →
  isPublic p = true.
Proof.
  intros [H|H]; apply isPublic_slash;
    apply startsWith_spec in H as [rest ->]; reflexivity.
Qed.

Lemma protected_not_api_nor_admin (p : string) :
  isPublic p = false →
  startsWith p "/api/" = false ∧ startsWith p "/admin" = false.
Proof.
  intros Hp.
  destruct (startsWith p "/api/") eqn:Hapi;
    [rewrite api_or_admin_isPublic in Hp by auto; discriminate|].
  destruct (startsWith p "/admin") eqn:Hadm;
    [rewrite api_or_admin_isPublic in Hp by auto; discriminate|].
  done.
Qed.

(** What an admin gets on a path that is neither suspicious nor public:
    steps 5 and the header blocks of step 7 test for [/api/] and [/admin],
    which such a path cannot start with, so only the content-type test and
    the [X-User-Authenticated] header remain. *)
Lemma middleware_admin (u : User) :
  isSuspicious (pathname req) = false →
  isPublic (pathname req) = false →
  getSession ext = inr (Some {| user := Some u |}) →
  role u = JsString "admin" →
  run_middleware ext req w =
    (Responds
       (if bool_decide (method req ∈ ["POST"; "PUT"; "PATCH"]%string) &&
           (negb (truthy (headers_get req "content-type")) ||
            negb (value_includes (headers_get req "content-type")
                    "application/json") &&
            negb (value_includes (headers_get req "content-type")
                    "multipart/form-data")) &&
           negb (includes (pathname req) "/api/auth/")
        then
          new_NextResponse
            (BodyJson
               [ ("success", JBool false);
                 ("message", JStr "Invalid content type") ]%string)
            400
            {[ "Content-Type"%string := "application/json"%string ]}
        else
          NextResponse_next
            {[ "X-User-Authenticated"%string := "true"%string ]}),
     after_getSession w).
Proof.
  intros Hs Hp He Hr.
  destruct (protected_not_api_nor_admin _ Hp) as [Hapi Hadm].
  js_run. rewrite Hs. js_run. rewrite Hp. js_run. rewrite He. js_run.
  rewrite (bool_decide_eq_true_2 _ Hr). js_run.
  rewrite Hapi, Hadm. js_run.
  destruct (bool_decide (method req ∈ _)); js_run; [|done].
  by destruct (truthy _), (value_includes _ "application/json"),
       (value_includes _ "multipart/form-data"),
       (includes _ "/api/auth/").
Qed.

(** The six ways a run ends. *)
Lemma middleware_cases :
  run_middleware ext req w = (Responds (new_NextResponse BodyNull 404 ∅), w) ∨
  run_middleware ext req w = (Responds (NextResponse_next ∅), w) ∨
  (∃ url reason,
     run_middleware ext req w =
       (Responds
          (NextResponse_redirect url {[ "X-Redirect-Reason"%string := reason ]}),
        after_getSession w)) ∨
  run_middleware ext req w =
    (Responds
       (new_NextResponse
          (BodyJson
             [ ("success", JBool false);
               ("message", JStr "Invalid content type") ]%string)
          400
          {[ "Content-Type"%string := "application/json"%string ]}),
     after_getSession w) ∨
  run_middleware ext req w =
    (Responds
       (NextResponse_next
          {[ "X-User-Authenticated"%string := "true"%string ]}),
     after_getSession w) ∨
  (∃ type_error,
     run_middleware ext req w = (Rejects type_error, after_getSession w)).
Proof.
  destruct (isSuspicious (pathname req)) eqn:Hs;
    [left; by apply middleware_suspicious|].
  destruct (isPublic (pathname req)) eqn:Hp;
    [right; left; by apply middleware_public|].
  right; right.
  destruct (getSession ext) as [e|[[[u|]]|]] eqn:He.
  - rewrite (middleware_auth_error e) by done.
    destruct (get_message e); [right; right; right|left]; eauto.
  - destruct (decide (role u = JsString "admin")) as [Hr|Hr].
    + right. rewrite (middleware_admin u) by done. destruct (_ && _); auto.
    + left. rewrite (middleware_not_admin u) by done. eauto.
  - left. rewrite middleware_no_session by auto. eauto.
  - left. rewrite middleware_no_session by auto. eauto.
Qed.

(** Where the [try] is reached, a session call that rejects with [null] or
    [undefined] is not turned into a redirect: the [catch] block throws on
    [error.message] and the promise returned by [middleware] rejects. *)
Lemma middleware_nullish_rejection (v : JsValue) :
  isSuspicious (pathname req) = false →
  isPublic (pathname req) = false →
  getSession ext = inl (Thrown v) →
  v = JsNull ∨ v = JsUndefined →
  ∃ type_error, fst (run_middleware ext req w) = Rejects type_error.
Proof.
  intros Hs Hp He Hv. rewrite (middleware_auth_error (Thrown v)) by done.
  destruct Hv as [-> | ->]; simpl; eauto.
Qed.

(** No run reaches the rate limiter: the map is never changed. *)
Lemma middleware_requestCounts :
  requestCounts (snd (run_middleware ext req w)) = requestCounts w.
Proof.
  destruct middleware_cases as [H|[H|[(url & reason & H)|[H|[H|[e H]]]]]];
    by rewrite H.
Qed.

(** No response carries [X-Admin-User] or [Cache-Control]. *)
Lemma middleware_never_annotates (r : Response) (w' : World) :
  run_middleware ext req w = (Responds r, w') →
  headers r !! "X-Admin-User"%string = None ∧
  headers r !! "Cache-Control"%string = None.
Proof.
  destruct middleware_cases as [H|[H|[(url & reason & H)|[H|[H|[e H]]]]]];
    rewrite H; intros Heq; simplify_eq; simpl;
    by rewrite ?lookup_singleton_ne.
Qed.

(** A path that is not public does not start with [/]. *)
Lemma protected_no_slash (p : string) :
  isPublic p = false → startsWith p "/" = false.
Proof.
  intros Hp. destruct (startsWith p "/") eqn:H; [|done].
  by rewrite isPublic_slash in Hp.
Qed.

End Middleware.

(** *** Runs on concrete requests *)

(** Where step 6 is reached, a POST with [text/plain] gets the 400. *)
Example post_text_plain_protected :
  fst (run_middleware (session_of admin_user)
         (post_request "orders" "text/plain") initial_world)
  = Responds
      (new_NextResponse
         (BodyJson
            [ ("success", JBool false);
              ("message", JStr "Invalid content type") ]%string)
         400
         {[ "Content-Type"%string := "application/json"%string ]}).
Proof. reflexivity. Qed.

(** A path containing [/api/auth/] is exempt from the content-type test. *)
Example post_text_plain_auth_route :
  fst (run_middleware (session_of admin_user)
         (post_request "x/api/auth/sign-in" "text/plain") initial_world)
  = Responds
      (NextResponse_next {[ "X-User-Authenticated"%string := "true"%string ]}).
Proof. reflexivity. Qed.

(** JSON bodies pass the content-type test. *)
Example post_json_protected :
  fst (run_middleware (session_of admin_user)
         (post_request "orders" "application/json; charset=utf-8")
         initial_world)
  = Responds
      (NextResponse_next {[ "X-User-Authenticated"%string := "true"%string ]}).
Proof. reflexivity. Qed.

(** The deny-list matches inside the path, not only at its start. *)
Example suspicious_inside :
  isSuspicious "/images/backup/logo.png" = true ∧
  isSuspicious "/admin/orders" = false.
Proof. split; reflexivity. Qed.

(** ** Claims about the middleware *)

(** C1. A request whose path starts with [/] and contains no deny-listed
    substring is classified public and answered with a bare
    [NextResponse.next()]: no header is set, and the module state comes back
    unchanged, so no session lookup and no [checkRateLimit] call was made.
    The answer is the same for every session answer, method and content
    type, so neither the role nor the content type is looked at. *)
Theorem public_path_plain_next (ext : External) (req : Request) (w : World) :
  startsWith (pathname req) "/" = true →
  isSuspicious (pathname req) = false →
  isPublic (pathname req) = true ∧
  run_middleware ext req w = (Responds (NextResponse_next ∅), w).
Proof.
  intros Hslash Hs. pose proof (isPublic_slash _ Hslash) as Hp.
  split; [done|]. by apply middleware_public.
Qed.

(** C3. A path that contains a deny-listed string at any offset gets a 404
    with an empty body, whatever the session lookup would answer and whether
    or not the path is public; the module state comes back unchanged, so the
    session was not looked up. *)
Theorem suspicious_path_404
    (ext : External) (req : Request) (w : World) (path pre post : string) :
  path ∈ SUSPICIOUS_PATHS →
  pathname req = pre +:+ path +:+ post →
  run_middleware ext req w = (Responds (new_NextResponse BodyNull 404 ∅), w).
Proof.
  intros Hin Hpath. apply middleware_suspicious.
  apply isSuspicious_spec. eauto.
Qed.

(** C4. What the code does without a session on [/admin/orders], a path
    of the admin panel: the path starts with [/], so step 2 returns a bare
    [NextResponse.next()]; the session is not looked up and nothing is
    redirected to the login page, whether the auth library would answer
    [null] or a session without a user. *)
Theorem admin_orders_no_session_not_redirected
    (now : Z) (o meth : string) (hs : gmap string string) (ip : JsValue)
    (w : World) :
  run_middleware
    {| getSession := inr None; Date_now := now |}
    {| pathname := "/admin/orders"; origin := o; method := meth;
       req_headers := hs; req_ip := ip |}
    w
  = (Responds (NextResponse_next ∅), w) ∧
  run_middleware
    {| getSession := inr (Some {| user := None |}); Date_now := now |}
    {| pathname := "/admin/orders"; origin := o; method := meth;
       req_headers := hs; req_ip := ip |}
    w
  = (Responds (NextResponse_next ∅), w).
Proof. split; by apply middleware_public. Qed.

(** C8. What the code does on [/admin/orders] when the session lookup would
    throw: the path starts with [/], so step 2 returns a bare
    [NextResponse.next()] before the [try]; the lookup is not made and there
    is no redirect with [auth_error]. *)
Theorem admin_orders_auth_failure_not_redirected
    (e : JsError) (now : Z) (o meth : string) (hs : gmap string string)
    (ip : JsValue) (w : World) :
  run_middleware
    {| getSession := inl e; Date_now := now |}
    {| pathname := "/admin/orders"; origin := o; method := meth;
       req_headers := hs; req_ip := ip |}
    w
  = (Responds (NextResponse_next ∅), w).
Proof. by apply middleware_public. Qed.

(** C9. What the code does on [/admin/orders] for a session of any user,
    whatever the role: the path starts with [/], so step 2 returns a bare
    [NextResponse.next()]; the role is not read and there is no redirect
    with [unauthorized]. *)
Theorem admin_orders_any_role_not_redirected
    (u : User) (now : Z) (o meth : string) (hs : gmap string string)
    (ip : JsValue) (w : World) :
  run_middleware
    {| getSession := inr (Some {| user := Some u |}); Date_now := now |}
    {| pathname := "/admin/orders"; origin := o; method := meth;
       req_headers := hs; req_ip := ip |}
    w
  = (Responds (NextResponse_next ∅), w).
Proof. by apply middleware_public. Qed.

(** C2. What the code does for an admin on [/api/orders] with the rate
    limiter in its initial state: the path starts with [/], so step 2 returns
    a bare [NextResponse.next()]; the response has neither [X-Admin-User]
    nor [Cache-Control], and the session was not looked up. *)
Theorem api_orders_admin_not_annotated
    (userEmail : string) (userId : JsValue) (now : Z)
    (o meth : string) (hs : gmap string string) (ip : JsValue) :
  run_middleware
    {| getSession :=
         inr (Some {| user := Some {| role := JsString "admin";
                                      email := JsString userEmail;
                                      id := userId |} |});
       Date_now := now |}
    {| pathname := "/api/orders"; origin := o; method := meth;
       req_headers := hs; req_ip := ip |}
    initial_world
  = (Responds (NextResponse_next ∅), initial_world) ∧
  headers (NextResponse_next ∅) !! "X-Admin-User"%string = None ∧
  headers (NextResponse_next ∅) !! "Cache-Control"%string = None.
Proof. split; [by apply middleware_public|done]. Qed.

(** C7. What the code does for a POST with content type [text/plain] on
    [/api/orders]: the path starts with [/], so step 2 returns a bare
    [NextResponse.next()] and the content-type test of step 6 is not
    reached; no 400 is produced. *)
Theorem api_post_text_plain_not_rejected
    (ext : External) (o : string) (ip : JsValue) (w : World) :
  run_middleware ext
    {| pathname := "/api/orders"; origin := o; method := "POST";
       req_headers := {[ "content-type"%string := "text/plain"%string ]};
       req_ip := ip |}
    w
  = (Responds (NextResponse_next ∅), w).
Proof. by apply middleware_public. Qed.

(** *** Instances *)

Lemma public_path_plain_next_witness :
  isPublic "/admin/orders" = true ∧
  run_middleware no_session (get_request "/admin/orders") initial_world
  = (Responds (NextResponse_next ∅), initial_world).
Proof.
  apply (public_path_plain_next no_session (get_request "/admin/orders")).
  - reflexivity.
  - reflexivity.
Defined.

Lemma suspicious_path_404_witness :
  run_middleware (session_of admin_user)
    (get_request "/_next/.env.local") initial_world
  = (Responds (new_NextResponse BodyNull 404 ∅), initial_world) ∧
  run_middleware no_session
    (get_request "/_next/.env.local") initial_world
  = (Responds (new_NextResponse BodyNull 404 ∅), initial_world).
Proof.
  split.
  - apply (suspicious_path_404 _ _ _ "/.env" "/_next" ".local").
    + apply (bool_decide_unpack _). vm_compute. exact I.
    + reflexivity.
  - apply (suspicious_path_404 _ _ _ "/.env" "/_next" ".local").
    + apply (bool_decide_unpack _). vm_compute. exact I.
    + reflexivity.
Defined.

(** ** More on the rate limiter *)

Section RateLimiterRuns.

Implicit Types (m : gmap string (list Z)) (identifier : string).

(** As long as the bound of 1000 identifiers is not crossed, a call stores
    the pruned array with [now] appended when it is accepted, and nothing
    otherwise. *)
Lemma checkRateLimit_step identifier now m :
  (size (dom m ∪ {[identifier]}) ≤ 1000)%nat →
  snd (checkRateLimit identifier now m) =
    if fst (checkRateLimit identifier now m)
    then <[identifier := recent identifier now m ++ [now]]> m
    else m.
Proof.
  intros Hsize.
  destruct (Z_le_gt_dec MAX_REQUESTS
              (Z.of_nat (length (recent identifier now m)))) as [H|H].
  - by rewrite checkRateLimit_denied.
  - rewrite checkRateLimit_accepted by lia. cbv zeta. simpl.
    rewrite size_insert_dom.
    by destruct (Z.gtb_spec (Z.of_nat (size (dom m ∪ {[identifier]}))) 1000)
      as [?|_]; [lia|].
Qed.

(** The array of one identifier never grows beyond [MAX_REQUESTS]. *)
Lemma checkRateLimit_length i now m identifier :
  Z.of_nat (length (default [] (m !! identifier))) ≤ MAX_REQUESTS →
  Z.of_nat (length (default [] (snd (checkRateLimit i now m) !! identifier)))
    ≤ MAX_REQUESTS.
Proof.
  intros Hlen.
  destruct (Z_le_gt_dec MAX_REQUESTS (Z.of_nat (length (recent i now m))))
    as [H|H].
  - by rewrite checkRateLimit_denied.
  - rewrite checkRateLimit_accepted by lia. cbv zeta. simpl.
    destruct (_ >? _).
    + rewrite lookup_empty. simpl. unfold MAX_REQUESTS. lia.
    + destruct (decide (i = identifier)) as [->|Hne].
      * rewrite lookup_insert_eq. simpl. rewrite length_app. simpl. lia.
      * by rewrite lookup_insert_ne.
Qed.

Lemma checkRateLimit_seq_length cs : ∀ m identifier,
  Z.of_nat (length (default [] (m !! identifier))) ≤ MAX_REQUESTS →
  Z.of_nat (length (default [] (snd (checkRateLimit_seq cs m) !! identifier)))
    ≤ MAX_REQUESTS.
Proof.
  induction cs as [|[i t] cs IH]; intros m identifier Hlen; [done|].
  rewrite checkRateLimit_seq_cons. apply IH. by apply checkRateLimit_length.
Qed.

Lemma checkRateLimit_size i now m :
  Z.of_nat (size m) ≤ 1000 →
  Z.of_nat (size (snd (checkRateLimit i now m))) ≤ 1000.
Proof.
  intros Hsize.
  destruct (Z_le_gt_dec MAX_REQUESTS (Z.of_nat (length (recent i now m))))
    as [H|H].
  - by rewrite checkRateLimit_denied.
  - rewrite checkRateLimit_accepted by lia. cbv zeta. simpl.
    destruct (Z.gtb_spec
                (Z.of_nat (size (<[i := recent i now m ++ [now]]> m))) 1000)
      as [?|?]; [|done].
    rewrite map_size_empty. lia.
Qed.

Lemma checkRateLimit_seq_size cs : ∀ m,
  Z.of_nat (size m) ≤ 1000 →
  Z.of_nat (size (snd (checkRateLimit_seq cs m))) ≤ 1000.
Proof.
  induction cs as [|[i t] cs IH]; intros m Hsize; [done|].
  rewrite checkRateLimit_seq_cons. apply IH. by apply checkRateLimit_size.
Qed.

Lemma filter_filter_window (now t : Z) (l : list Z) :
  t ≤ now →
  filter (λ s, now - s < RATE_LIMIT_WINDOW)
    (filter (λ s, t - s < RATE_LIMIT_WINDOW) l)
  = filter (λ s, now - s < RATE_LIMIT_WINDOW) l.
Proof.
  intros Hle. induction l as [|s l IH]; [done|].
  destruct (decide (t - s < RATE_LIMIT_WINDOW)) as [Hs|Hs].
  - rewrite (filter_cons_True (λ s, t - s < RATE_LIMIT_WINDOW)) by done.
    destruct (decide (now - s < RATE_LIMIT_WINDOW)).
    + rewrite !(filter_cons_True (λ s, now - s < RATE_LIMIT_WINDOW)) by done.
      by rewrite IH.
    + rewrite !(filter_cons_False (λ s, now - s < RATE_LIMIT_WINDOW)) by done.
      done.
  - rewrite (filter_cons_False (λ s, t - s < RATE_LIMIT_WINDOW)) by done.
    rewrite (filter_cons_False (λ s, now - s < RATE_LIMIT_WINDOW)) by lia.
    done.
Qed.

(** With a clock that does not go back and below the bound of 1000
    identifiers, what is stored for an identifier and what was accepted for
    it agree on every window that ends at or after the last call. *)
Lemma accepted_times_stored identifier now cs : ∀ m,
  (size (dom m ∪ list_to_set cs.*1) ≤ 1000)%nat →
  StronglySorted Z.le (cs.*2 ++ [now]) →
  filter (λ s, now - s < RATE_LIMIT_WINDOW)
    (default [] (m !! identifier) ++ accepted_times identifier cs m)
  = filter (λ s, now - s < RATE_LIMIT_WINDOW)
      (default [] (snd (checkRateLimit_seq cs m) !! identifier)).
Proof.
  induction cs as [|[i t] cs IH]; intros m Hsize Hsorted.
  - simpl. by rewrite app_nil_r.
  - rewrite checkRateLimit_seq_cons.
    rewrite fmap_cons, list_to_set_cons in Hsize. simpl in Hsize.
    rewrite fmap_cons in Hsorted. simpl in Hsorted.
    apply StronglySorted_inv in Hsorted as [Hsorted Hle].
    assert (Htnow : t ≤ now).
    { rewrite Forall_app in Hle. destruct Hle as [_ Hle].
      by apply Forall_inv in Hle. }
    assert (Hsize1 : (size (dom m ∪ {[i]}) ≤ 1000)%nat).
    { etrans; [|exact Hsize]. apply subseteq_size. set_solver. }
    pose proof (checkRateLimit_dom i t m Hsize1) as Hdom.
    pose proof (checkRateLimit_step i t m Hsize1) as Hstep.
    simpl. destruct (checkRateLimit i t m) as [ok m1] eqn:Hcall.
    simpl in Hdom, Hstep |- *.
    rewrite <- IH; [|rewrite Hdom;
      etrans; [|exact Hsize]; apply subseteq_size; set_solver | done].
    rewrite !filter_app. rewrite (assoc_L (++)). f_equal.
    rewrite <- filter_app.
    destruct ok; simpl.
    + subst m1. destruct (decide (i = identifier)) as [->|Hne].
      * rewrite bool_decide_eq_true_2 by done.
        rewrite lookup_insert_eq. simpl. unfold recent.
        rewrite !filter_app. by rewrite filter_filter_window.
      * rewrite bool_decide_eq_false_2 by done.
        rewrite lookup_insert_ne by done. by rewrite app_nil_r.
    + subst m1. by rewrite app_nil_r.
Qed.

End RateLimiterRuns.

(** X1. Starting from a map with at most 1000 identifiers and at most 100
    timestamps per identifier (the empty map, for one), every run of calls
    ends in such a map: the limiter never keeps more than 1000 arrays of
    more than 100 timestamps. *)
Theorem checkRateLimit_seq_bounded
    (cs : list (string * Z)) (m : gmap string (list Z)) :
  Z.of_nat (size m) ≤ 1000 →
  (∀ i l, m !! i = Some l → Z.of_nat (length l) ≤ MAX_REQUESTS) →
  Z.of_nat (size (snd (checkRateLimit_seq cs m))) ≤ 1000 ∧
  (∀ i l, snd (checkRateLimit_seq cs m) !! i = Some l →
          Z.of_nat (length l) ≤ MAX_REQUESTS).
Proof.
  intros Hsize Hlen. split.
  - by apply checkRateLimit_seq_size.
  - intros i l Hl.
    pose proof (checkRateLimit_seq_length cs m i) as H.
    rewrite Hl in H. simpl in H. apply H.
    destruct (m !! i) as [l0|] eqn:Hi; simpl.
    + by apply (Hlen i).
    + unfold MAX_REQUESTS. lia.
Qed.

(** X2. While the clock does not go back and the bound of 1000 identifiers
    is not crossed, an identifier that starts untracked gets at most 100
    calls accepted in any 60 second window that ends at or after the last
    call of the run. *)
Theorem accepted_per_window
    (identifier : string) (cs : list (string * Z))
    (m : gmap string (list Z)) (now : Z) :
  m !! identifier = None →
  (size (dom m ∪ list_to_set cs.*1) ≤ 1000)%nat →
  Sorted Z.le (cs.*2 ++ [now]) →
  Z.of_nat
    (length (filter (λ s, now - s < RATE_LIMIT_WINDOW)
               (accepted_times identifier cs m)))
    ≤ MAX_REQUESTS.
Proof.
  intros Hnew Hsize Hsorted.
  assert (Htrans : Transitive Z.le) by (intros ???; lia).
  apply Sorted_StronglySorted in Hsorted; [|exact Htrans].
  pose proof (accepted_times_stored identifier now cs m Hsize Hsorted) as H.
  rewrite Hnew in H. simpl in H. rewrite H.
  etrans; [apply inj_le, length_filter|].
  apply checkRateLimit_seq_length. rewrite Hnew. simpl.
  unfold MAX_REQUESTS. lia.
Qed.

(** X3. An identifier whose stored requests are all at least 60 seconds old
    is accepted, however many of them are stored. *)
Theorem checkRateLimit_after_silence
    (identifier : string) (last now : Z) (m : gmap string (list Z)) :
  Forall (λ s, s ≤ last) (default [] (m !! identifier)) →
  last + RATE_LIMIT_WINDOW ≤ now →
  fst (checkRateLimit identifier now m) = true.
Proof.
  intros Hold Hnow.
  destruct (checkRateLimit_cases identifier now m) as [[Hfull _]|[_ Hacc]];
    [|done].
  exfalso. revert Hfull. unfold recent.
  induction Hold as [|s l Hs _ IH]; simpl.
  - unfold MAX_REQUESTS. lia.
  - rewrite filter_cons_False by lia. done.
Qed.

(** X4. As long as the bound of 1000 identifiers is not crossed, a call
    changes nothing for the other identifiers. *)
Theorem checkRateLimit_other_identifier
    (identifier other : string) (now : Z) (m : gmap string (list Z)) :
  other ≠ identifier →
  (size (dom m ∪ {[identifier]}) ≤ 1000)%nat →
  snd (checkRateLimit identifier now m) !! other = m !! other.
Proof.
  intros Hne Hsize. rewrite checkRateLimit_step by done.
  destruct (fst _); [|done]. by rewrite lookup_insert_ne.
Qed.

(** ** More on the middleware *)

Section MiddlewareTable.

Lemma startsWith_first_char (a : Ascii.ascii) (p q : string) :
  startsWith p (String a EmptyString) = false →
  startsWith p (String a q) = false.
Proof.
  unfold startsWith. destruct p as [|b p]; simpl; [done|].
  by destruct (Ascii.ascii_dec a b), p.
Qed.

Variables (ext : External) (req : Request) (w : World).

(** The whole decision of [middleware], by cases on what it reads. *)
Lemma middleware_table :
  run_middleware ext req w =
    if isSuspicious (pathname req) then
      (Responds (new_NextResponse BodyNull 404 ∅), w)
    else if isPublic (pathname req) then
      (Responds (NextResponse_next ∅), w)
    else
      (match getSession ext with
       | inl e =>
           match get_message e with
           | inl type_error => Rejects type_error
           | inr _ =>
               Responds
                 (NextResponse_redirect
                    {| url_origin := origin req;
                       url_pathname := "/";
                       searchParams := [("error", "auth_error")]%string |}
                    {[ "X-Redirect-Reason"%string := "auth-error"%string ]})
           end
       | inr session =>
         Responds
         match session with
         | Some {| user := Some u |} =>
             if bool_decide (role u = JsString "admin") then
               if bool_decide (method req ∈ ["POST"; "PUT"; "PATCH"]%string) &&
                  (negb (truthy (headers_get req "content-type")) ||
                   negb (value_includes (headers_get req "content-type")
                           "application/json") &&
                   negb (value_includes (headers_get req "content-type")
                           "multipart/form-data")) &&
                  negb (includes (pathname req) "/api/auth/")
               then
                 new_NextResponse
                   (BodyJson
                      [ ("success", JBool false);
                        ("message", JStr "Invalid content type") ]%string)
                   400
                   {[ "Content-Type"%string := "application/json"%string ]}
               else
                 NextResponse_next
                   {[ "X-User-Authenticated"%string := "true"%string ]}
             else
               NextResponse_redirect
                 {| url_origin := origin req;
                    url_pathname := "/";
                    searchParams :=
                      [("error", "unauthorized");
                       ("message", "Accès réservé aux administrateurs")
                      ]%string |}
                 {[ "X-Redirect-Reason"%string := "not-admin"%string ]}
         | _ =>
             NextResponse_redirect
               {| url_origin := origin req;
                  url_pathname := "/";
                  searchParams :=
                    [("error", "authentication_required");
                     ("callbackUrl", pathname req)]%string |}
               {[ "X-Redirect-Reason"%string := "no-session"%string ]}
         end
       end,
       after_getSession w).
Proof.
  destruct (isSuspicious (pathname req)) eqn:Hs;
    [by apply middleware_suspicious|].
  destruct (isPublic (pathname req)) eqn:Hp;
    [by apply middleware_public|].
  destruct (getSession ext) as [e|[[[u|]]|]] eqn:He.
  - by apply (middleware_auth_error ext req w e).
  - destruct (decide (role u = JsString "admin")) as [Hr|Hr].
    + rewrite (bool_decide_eq_true_2 _ Hr). by apply (middleware_admin ext req w u).
    + rewrite (bool_decide_eq_false_2 _ Hr).
      by apply (middleware_not_admin ext req w u).
  - apply middleware_no_session; auto.
  - apply middleware_no_session; auto.
Qed.

End MiddlewareTable.

(** X5. A path passes the allow-list exactly when it starts with [/]: the
    six other entries of [PUBLIC_PATHS] add nothing to the first. *)
Theorem isPublic_is_slash (p : string) :
  isPublic p = startsWith p "/".
Proof.
  unfold isPublic, PUBLIC_PATHS. simpl.
  destruct (startsWith p "/") eqn:H; [done|].
  by rewrite !startsWith_first_char.
Qed.

(** X6. The session is looked up once when the path is neither suspicious
    nor public, and not at all otherwise; nothing else happens to the module
    state: the rate-limit map is never changed and [checkRateLimit] is never
    called. *)
Theorem middleware_state (ext : External) (req : Request) (w : World) :
  snd (run_middleware ext req w) =
    if isSuspicious (pathname req) || isPublic (pathname req)
    then w
    else after_getSession w.
Proof.
  rewrite middleware_table.
  by destruct (isSuspicious (pathname req)), (isPublic (pathname req)).
Qed.

(** X7. A request whose path starts with [/] is answered with the empty 404
    when the path contains a deny-listed string and with a bare
    [NextResponse.next()] otherwise, whatever the session lookup would
    answer, and the module state comes back unchanged: such a request is
    never redirected to the login page, never answered 400 and never marked
    [X-User-Authenticated]. *)
Theorem middleware_slash_path (ext : External) (req : Request) (w : World) :
  startsWith (pathname req) "/" = true →
  run_middleware ext req w =
    (Responds
       (if isSuspicious (pathname req)
        then new_NextResponse BodyNull 404 ∅
        else NextResponse_next ∅),
     w).
Proof.
  intros Hslash. destruct (isSuspicious (pathname req)) eqn:Hs.
  - by apply middleware_suspicious.
  - apply middleware_public; [done|]. by apply isPublic_slash.
Qed.

(** X9. Whatever the input, the only headers the middleware puts on a
    response are [X-Redirect-Reason], [Content-Type] and
    [X-User-Authenticated], and the only statuses it sets itself are 404 and
    400: no CORS or security header, and no 429. *)
Theorem middleware_headers_and_statuses
    (ext : External) (req : Request) (w w' : World) (r : Response) :
  run_middleware ext req w = (Responds r, w') →
  dom (headers r) ⊆
    ({[ "X-Redirect-Reason"; "Content-Type"; "X-User-Authenticated" ]}%string
       : gset string) ∧
  (∀ body status h, r = new_NextResponse body status h →
                    status = 404 ∨ status = 400).
Proof.
  rewrite middleware_table. intros H.
  repeat case_match; simplify_eq; simpl;
    rewrite ?dom_empty_L, ?dom_singleton_L;
    (split; [set_solver|intros ??? [=]; auto]).
Qed.

(** X10. The answer is the empty 404 exactly when the path contains a
    deny-listed string. *)
Theorem middleware_404_iff (ext : External) (req : Request) (w : World) :
  fst (run_middleware ext req w) = Responds (new_NextResponse BodyNull 404 ∅)
  ↔ ∃ path pre post,
      path ∈ SUSPICIOUS_PATHS ∧ pathname req = pre +:+ path +:+ post.
Proof.
  rewrite <- isSuspicious_spec, middleware_table.
  destruct (isSuspicious (pathname req)); [done|].
  split; [|done]. repeat case_match; simpl; intros [=].
Qed.

(** ** The login form *)

(** X13. Whatever the sign-in call and [parseCallbackUrl] do, the handler
    ends without an exception, starts with [preventDefault] and
    [setIsLoading(true)], and its last effect is [setIsLoading(false)]: the
    form never stays in the loading state. *)
Theorem submitHandler_resets_loading
    (parseCallbackUrl : string → JsError + string)
    (callBackUrl : JsValue) (email password : string)
    (signIn_email : SignInResult) :
  (∃ rest,
     fst (submitHandler parseCallbackUrl callBackUrl email password signIn_email)
     = [PreventDefault; SetIsLoading true] ++ rest ++ [SetIsLoading false]) ∧
  (∀ e,
     snd (submitHandler parseCallbackUrl callBackUrl email password signIn_email)
     ≠ UiThrow e).
Proof.
  unfold submitHandler.
  destruct (if truthy callBackUrl then _ else _) as [e|cb];
    [|destruct signIn_email as [e|[|] [message|]]]; cbn;
    (split; [eexists; reflexivity|done]) ||
    (split; [|done]).
  all: try (eexists [_]; reflexivity);
       try (eexists [_; _]; reflexivity);
       try (eexists [_; _; _]; reflexivity).
Qed.

(** X14. The handler navigates only to [/admin], and does so exactly when
    [parseCallbackUrl] did not throw and the sign-in call resolved with data
    and without an error; the [callbackUrl] of the query string is never a
    navigation target. *)
Theorem submitHandler_navigation
    (parseCallbackUrl : string → JsError + string)
    (callBackUrl : JsValue) (email password : string)
    (signIn_email : SignInResult) (path : string) :
  RouterPush path ∈
    fst (submitHandler parseCallbackUrl callBackUrl email password signIn_email)
  ↔ path = "/admin"%string ∧
    signIn_email = SignInResolves true None ∧
    (truthy callBackUrl = false ∨
     ∃ cb, parseCallbackUrl (js_toString callBackUrl) = inr cb).
Proof.
  unfold submitHandler.
  destruct (truthy callBackUrl) eqn:Ht;
    [destruct (parseCallbackUrl (js_toString callBackUrl)) as [e|cb] eqn:Hp|];
    try destruct signIn_email as [e'|[|] [message|]]; cbn;
    rewrite ?elem_of_cons, ?elem_of_nil; split; intros H;
    try (destruct_or?; simplify_eq; fail);
    try (destruct H as (-> & ? & ?); simplify_eq; fail).
  all: try (destruct_or?; simplify_eq; eauto 6; fail).
  all: try (destruct H as (? & ? & [?|[? ?]]); simplify_eq; fail).
  all: destruct H as (-> & _ & _); auto 10.
Qed.

(** X15. The handler shows exactly one toast, except when the sign-in call
    resolves with neither data nor an error: then it shows none and nothing
    else happens. *)
Theorem submitHandler_toasts
    (parseCallbackUrl : string → JsError + string)
    (callBackUrl : JsValue) (email password : string)
    (signIn_email : SignInResult) :
  length (List.filter is_toast
            (fst (submitHandler parseCallbackUrl callBackUrl email password
                    signIn_email)))
  = match (if truthy callBackUrl
           then parseCallbackUrl (js_toString callBackUrl)
           else inr "/admin"%string), signIn_email with
    | inr _, SignInResolves false None => 0%nat
    | _, _ => 1%nat
    end.
Proof.
  unfold submitHandler.
  destruct (if truthy callBackUrl then _ else _) as [e|cb];
    [|destruct signIn_email as [e|[|] [message|]]]; reflexivity.
Qed.

(** *** Instances *)

Lemma checkRateLimit_seq_bounded_witness :
  Z.of_nat
    (size (snd (checkRateLimit_seq
                  [("admin@example.com"%string, 5); ("guest"%string, 5)]
                  full_window_map))) ≤ 1000 ∧
  (∀ i l,
     snd (checkRateLimit_seq
            [("admin@example.com"%string, 5); ("guest"%string, 5)]
            full_window_map) !! i = Some l →
     Z.of_nat (length l) ≤ MAX_REQUESTS).
Proof.
  apply checkRateLimit_seq_bounded.
  - vm_compute. discriminate.
  - intros i l H. unfold full_window_map in H.
    apply lookup_singleton_Some in H as [_ <-].
    vm_compute. discriminate.
Defined.

Lemma accepted_per_window_witness :
  Z.of_nat
    (length (filter (λ s, 10 - s < RATE_LIMIT_WINDOW)
               (accepted_times "guest"
                  [("guest"%string, 0); ("admin@example.com"%string, 1);
                   ("guest"%string, 2)]
                  full_window_map)))
    ≤ MAX_REQUESTS.
Proof.
  apply accepted_per_window.
  - reflexivity.
  - vm_compute. lia.
  - simpl.
    repeat first [apply Sorted_nil | apply Sorted_cons
                 | apply HdRel_nil | apply HdRel_cons]; lia.
Defined.

Lemma checkRateLimit_after_silence_witness :
  fst (checkRateLimit "admin@example.com" 60000 full_window_map) = true.
Proof.
  apply (checkRateLimit_after_silence "admin@example.com" 0).
  - apply (bool_decide_unpack _). vm_compute. exact I.
  - vm_compute. discriminate.
Defined.

Lemma checkRateLimit_other_identifier_witness :
  snd (checkRateLimit "guest" 5 full_window_map) !! "admin@example.com"%string
  = full_window_map !! "admin@example.com"%string.
Proof.
  apply checkRateLimit_other_identifier.
  - discriminate.
  - vm_compute. lia.
Defined.

Lemma middleware_slash_path_witness :
  run_middleware (session_of customer_user) (get_request "/admin/orders")
    initial_world =
    (Responds
       (if isSuspicious (pathname (get_request "/admin/orders"))
        then new_NextResponse BodyNull 404 ∅
        else NextResponse_next ∅),
     initial_world).
Proof.
  apply (middleware_slash_path (session_of customer_user)
           (get_request "/admin/orders") initial_world).
  reflexivity.
Defined.

Lemma middleware_headers_and_statuses_witness :
  dom (headers
         (new_NextResponse
            (BodyJson
               [ ("success", JBool false);
                 ("message", JStr "Invalid content type") ]%string)
            400
            {[ "Content-Type"%string := "application/json"%string ]})) ⊆
    ({[ "X-Redirect-Reason"; "Content-Type"; "X-User-Authenticated" ]}%string
       : gset string) ∧
  (∀ body status h,
     new_NextResponse
       (BodyJson
          [ ("success", JBool false);
            ("message", JStr "Invalid content type") ]%string)
       400
       {[ "Content-Type"%string := "application/json"%string ]}
     = new_NextResponse body status h →
     status = 404 ∨ status = 400).
Proof.
  apply (middleware_headers_and_statuses (session_of admin_user)
           (post_request "orders" "text/plain") initial_world
           (after_getSession initial_world)).
  reflexivity.
Defined.
